(** * The todo API of the backend server (server.js, listed in README.md)

    A shallow embedding of the Express backend: the in-memory store
    ([todos], [nextId]) and the four routes GET /api/todos, POST /api/todos,
    DELETE /api/todos/:id and GET /api/health, with the JavaScript
    operations they rely on ([String.prototype.trim], [parseInt], [isNaN],
    the Number arithmetic of [nextId++], [Array.prototype.findIndex] and
    [splice]). *)

From Stdlib Require Import String Ascii ZArith List Bool Lia QArith Sorted.
Import ListNotations.
Open Scope Z_scope.
Set Warnings "-register-all".

(** ** JavaScript strings *)

(** A JS string is a sequence of UTF-16 code units. *)
Definition jsstr := list Z.

(** A string literal of the source, written in ASCII. *)
Definition js (s : string) : jsstr :=
  map (fun c => Z.of_nat (nat_of_ascii c)) (list_ascii_of_string s).

(** StrWhiteSpaceChar of ECMAScript: WhiteSpace (TAB, VT, FF, ZWNBSP and the
    Space_Separator code points) and LineTerminator (LF, CR, LS, PS).  Both
    [String.prototype.trim] and [parseInt] strip exactly these. *)
Definition is_ws (c : Z) : bool :=
  (c =? 9) || (c =? 11) || (c =? 12) || (c =? 65279)
  || (c =? 32) || (c =? 160) || (c =? 5760)
  || ((8192 <=? c) && (c <=? 8202)) || (c =? 8239) || (c =? 8287) || (c =? 12288)
  || (c =? 10) || (c =? 13) || (c =? 8232) || (c =? 8233).

Fixpoint trim_start (s : jsstr) : jsstr :=
  match s with
  | [] => []
  | c :: r => if is_ws c then trim_start r else s
  end.

Definition trim_end (s : jsstr) : jsstr := rev (trim_start (rev s)).

(** [String.prototype.trim]. *)
Definition js_trim (s : jsstr) : jsstr := trim_end (trim_start s).

(** ** JavaScript numbers *)

(** A Number as the handlers see it.  Finite values that occur here are
    integers, kept as [Z] (the zeros +0 and -0 are one value: the code only
    compares them with [===], for which they are equal). *)
Inductive jsnum := NaN | Fin (z : Z) | PosInf | NegInf.

(** Rounding of an integer to the nearest double (ties to even), ignoring the
    exponent range. *)
Definition round_double (z : Z) : Z :=
  let a := Z.abs z in
  if a <=? 2 ^ 53 then z
  else
    let e := Z.log2 a - 52 in
    let q := a / 2 ^ e in
    let r := a mod 2 ^ e in
    let half := 2 ^ (e - 1) in
    let q' := if half <? r then q + 1
              else if r <? half then q
              else if Z.odd q then q + 1 else q in
    Z.sgn z * (q' * 2 ^ e).

(** The Number value of a mathematical integer (the 𝔽 of the standard):
    nearest double, or an infinity past the largest finite double. *)
Definition to_number (z : Z) : jsnum :=
  let r := round_double z in
  if 2 ^ 1024 <=? Z.abs r then (if z <? 0 then NegInf else PosInf) else Fin r.

(** [x + 1] on the integer-valued Number [x] held by [nextId] ([nextId++]).
    The counter starts at 1 and only ever takes values at most 2^53, far from
    the overflow to Infinity. *)
Definition js_incr (x : Z) : Z := round_double (x + 1).

Definition isNaN (n : jsnum) : bool :=
  match n with NaN => true | _ => false end.

(** [===] on Numbers. *)
Definition num_strict_eq (a b : jsnum) : bool :=
  match a, b with
  | Fin x, Fin y => x =? y
  | PosInf, PosInf | NegInf, NegInf => true
  | _, _ => false
  end.

(** ** parseInt(string) (radix undefined) *)

(** Value of a code unit as a digit: 0-9, then a-z / A-Z as 10..35;
    36 for any other code unit. *)
Definition digit_value (c : Z) : Z :=
  if (48 <=? c) && (c <=? 57) then c - 48
  else if (97 <=? c) && (c <=? 122) then c - 87
  else if (65 <=? c) && (c <=? 90) then c - 55
  else 36.

(** The longest prefix of radix-[R] digits, as digit values. *)
Fixpoint digit_prefix (R : Z) (s : jsstr) : list Z :=
  match s with
  | [] => []
  | c :: r => if digit_value c <? R then digit_value c :: digit_prefix R r else []
  end.

Definition digits_value (R : Z) (ds : list Z) : Z :=
  fold_left (fun acc d => acc * R + d) ds 0.

(** The steps of the standard's parseInt up to the mathematical integer:
    strip leading white space, read an optional sign, take radix 16 after a
    "0x"/"0X" prefix and radix 10 otherwise, then the longest digit prefix;
    [None] when that prefix is empty (the result NaN). *)
Definition parseInt_math (input : jsstr) : option Z :=
  let S0 := trim_start input in
  let sign := match S0 with c :: _ => if c =? 45 then -1 else 1 | [] => 1 end in
  let S1 := match S0 with
            | c :: r => if (c =? 43) || (c =? 45) then r else S0
            | [] => S0
            end in
  let '(R, S2) := match S1 with
                  | c0 :: c1 :: r =>
                      if (c0 =? 48) && ((c1 =? 120) || (c1 =? 88)) then (16, r)
                      else (10, S1)
                  | _ => (10, S1)
                  end in
  match digit_prefix R S2 with
  | [] => None
  | ds => Some (sign * digits_value R ds)
  end.

Definition parseInt (s : jsstr) : jsnum :=
  match parseInt_math s with
  | None => NaN
  | Some z => to_number z
  end.

(** ** JSON values of a request body (after express.json()) *)

(** A JSON number is held as the (rational) value of the double it parses to. *)
Inductive jsval :=
| JNull
| JBool (b : bool)
| JNum (q : Q)
| JStr (s : jsstr)
| JArr (l : list jsval)
| JObj (fields : list (jsstr * jsval)).

(** [!v] for the value of a field; [None] is [undefined] (field absent). *)
Definition js_falsy (v : option jsval) : bool :=
  match v with
  | None | Some JNull => true
  | Some (JBool b) => negb b
  | Some (JNum q) => Qeq_bool q 0
  | Some (JStr s) => match s with [] => true | _ => false end
  | Some (JArr _) | Some (JObj _) => false
  end.

(** [typeof v === 'string']. *)
Definition typeof_string (v : option jsval) : bool :=
  match v with Some (JStr _) => true | _ => false end.

(** ** The store and the responses *)

Record todo := mkTodo { id : Z; text : jsstr; createdAt : jsstr }.

(** [let todos = []; let nextId = 1;] *)
Record store := mkStore { todos : list todo; nextId : Z }.

Definition init_store : store := mkStore [] 1.

(** What a handler sends: [res.json(...)] of one of the route's payloads, or
    [res.status(204).send()]. *)
Inductive body :=
| BEmpty
| BError (error : jsstr)
| BTodo (t : todo)
| BTodos (l : list todo)
| BHealth (status timestamp app description : jsstr).

Record response := mkResp { status : Z; payload : body }.

(** The process environment read at start-up. *)
Record env := mkEnv { env_APP_NAME : option jsstr; env_APP_DESCRIPTION : option jsstr }.

(** [process.env.X || default]: an unset or empty variable gives the default. *)
Definition env_or (v : option jsstr) (d : jsstr) : jsstr :=
  match v with
  | Some ((_ :: _) as s) => s
  | _ => d
  end.

(** A request as a route sees it.  The clock reading [new Date().toISOString()]
    taken while handling is part of the request. *)
Inductive request :=
| GetTodos
| PostTodos (text : option jsval) (now : jsstr)
| DeleteTodo (param_id : jsstr)
| GetHealth (now : jsstr).

(** ** Array operations on [todos] *)

(** [todos.findIndex(p)]: the first index satisfying [p], or -1. *)
Fixpoint findIndex (p : todo -> bool) (l : list todo) : Z :=
  match l with
  | [] => -1
  | x :: r =>
      if p x then 0
      else let i := findIndex p r in if i =? -1 then -1 else i + 1
  end.

(** [todos.splice(i, 1)] for an index [0 <= i], as the array left behind. *)
Definition splice1 (l : list todo) (i : Z) : list todo :=
  firstn (Z.to_nat i) l ++ skipn (Z.to_nat i + 1) l.

(** ** The routes *)

Section Routes.

Variable cfg : env.

Definition APP_NAME : jsstr := env_or cfg.(env_APP_NAME) (js "Todo SaaS").
Definition APP_DESCRIPTION : jsstr :=
  env_or cfg.(env_APP_DESCRIPTION) (js "Simple, clean, and efficient task management").

(** app.get('/api/todos') *)
Definition get_todos (st : store) : response * store :=
  (mkResp 200 (BTodos st.(todos)), st).

Definition post_error : jsstr := js "Text is required and must be a non-empty string".

(** [text.trim() === ''], reached only once [text] is a string. *)
Definition trims_empty (v : option jsval) : bool :=
  match v with
  | Some (JStr s) => match js_trim s with [] => true | _ => false end
  | _ => false
  end.

(** app.post('/api/todos'), with [text] the field of [req.body]. *)
Definition post_todos (text : option jsval) (now : jsstr) (st : store)
  : response * store :=
  if js_falsy text || negb (typeof_string text) || trims_empty text then
    (mkResp 400 (BError post_error), st)
  else
    match text with
    | Some (JStr s) =>
        let newTodo := mkTodo st.(nextId) (js_trim s) now in
        (mkResp 201 (BTodo newTodo),
         mkStore (st.(todos) ++ [newTodo]) (js_incr st.(nextId)))
    | _ => (mkResp 400 (BError post_error), st)
    end.

(** app.delete('/api/todos/:id'), with [param_id] the string [req.params.id]. *)
Definition delete_todo (param_id : jsstr) (st : store) : response * store :=
  let id0 := parseInt param_id in
  if isNaN id0 then (mkResp 400 (BError (js "Invalid todo ID")), st)
  else
    let todoIndex := findIndex (fun t => num_strict_eq (Fin t.(id)) id0) st.(todos) in
    if todoIndex =? -1 then (mkResp 404 (BError (js "Todo not found")), st)
    else (mkResp 204 BEmpty, mkStore (splice1 st.(todos) todoIndex) st.(nextId)).

(** app.get('/api/health') *)
Definition get_health (now : jsstr) (st : store) : response * store :=
  (mkResp 200 (BHealth (js "OK") now APP_NAME APP_DESCRIPTION), st).

Definition handle (r : request) (st : store) : response * store :=
  match r with
  | GetTodos => get_todos st
  | PostTodos text now => post_todos text now st
  | DeleteTodo p => delete_todo p st
  | GetHealth now => get_health now st
  end.

(** The server handling a sequence of requests one at a time. *)
Fixpoint run (st : store) (rs : list request) : list response * store :=
  match rs with
  | [] => ([], st)
  | r :: rs' =>
      let (resp, st1) := handle r st in
      let (resps, st2) := run st1 rs' in
      (resp :: resps, st2)
  end.

End Routes.

(** The records created by a sequence of requests, in order: the bodies of
    the 201 responses. *)
Definition created (resps : list response) : list todo :=
  flat_map (fun r => if r.(status) =? 201
                     then match r.(payload) with BTodo t => [t] | _ => [] end
                     else []) resps.

Definition ids (l : list todo) : list Z := map id l.

(** From the spec's words: the path identifier "denotes an integer" when it
    is an optional sign followed by one or more decimal digits, and nothing
    else. *)
Fixpoint all_decimal (s : jsstr) : bool :=
  match s with
  | [] => true
  | c :: r => (48 <=? c) && (c <=? 57) && all_decimal r
  end.

Definition denotes_integer (s : jsstr) : bool :=
  match s with
  | [] => false
  | c :: r =>
      if (c =? 43) || (c =? 45) then
        match r with [] => false | _ => all_decimal r end
      else all_decimal s
  end.

(** Order-preserving sub-sequences. *)
Inductive subseq {A : Type} : list A -> list A -> Prop :=
| subseq_nil : subseq [] []
| subseq_skip x l1 l2 : subseq l1 l2 -> subseq l1 (x :: l2)
| subseq_keep x l1 l2 : subseq l1 l2 -> subseq (x :: l1) (x :: l2).

(** ** Concrete inputs *)

(** A server started with APP_NAME and APP_DESCRIPTION unset. *)
Definition cfg0 : env := mkEnv None None.

(** A POST /api/todos whose body is [{"text": s}]. *)
Definition post (s : string) (now : jsstr) : request := PostTodos (Some (JStr (js s))) now.

(** A store holding the one record 1. *)
Definition store_with_1 : store := mkStore [mkTodo 1 (js "a") []] 2.

(** Decimal rendering of a non-negative integer below 10^20. *)
Fixpoint dec_rev (fuel : nat) (z : Z) : jsstr :=
  match fuel with
  | O => []
  | S f => (48 + z mod 10) :: (if z <? 10 then [] else dec_rev f (z / 10))
  end.

Definition dec (z : Z) : jsstr := rev (dec_rev 20 z).

(** [n] rounds of: create a todo, then delete it by its id. *)
Fixpoint create_delete_rounds (n : nat) : list request :=
  match n with
  | O => []
  | S k => create_delete_rounds k ++ [post "t" []; DeleteTodo (dec (Z.of_nat k + 1))]
  end.

(** The scenario of the spec: insert "a", insert "b", list, delete 1, list,
    insert "c". *)
Definition scenario (t1 t2 t3 : jsstr) : list request :=
  [post "a" t1; post "b" t2; GetTodos; DeleteTodo (js "1"); GetTodos; post "c" t3].

(** The number of create/delete rounds that brings the counter to 2^53. *)
Definition rounds_to_2_53 : nat := Z.to_nat (2 ^ 53 - 1).

(** ** Views of a run *)

(** Requests that may change the store: the POST and DELETE routes. *)
Definition is_write (r : request) : bool :=
  match r with
  | PostTodos _ _ | DeleteTodo _ => true
  | GetTodos | GetHealth _ => false
  end.

(** The number of responses with status [k]. *)
Definition count_status (k : Z) (resps : list response) : nat :=
  List.length (filter (fun r => r.(status) =? k) resps).

(** The stored texts are non-empty and left as they are by [trim]. *)
Definition text_ok (st : store) : Prop :=
  Forall (fun t => t.(text) <> [] /\ js_trim t.(text) = t.(text)) st.(todos).

(** Stored ids lie below the counter, or at 2^53 once the counter has stopped there. *)
Definition ids_below (st : store) : Prop :=
  1 <= st.(nextId) <= 2 ^ 53 /\
  Forall (fun t => 1 <= t.(id) < st.(nextId) \/ (t.(id) = st.(nextId) /\ st.(nextId) = 2 ^ 53)) st.(todos).

(** * Properties *)

(** ** Sub-sequences *)

Section Subseq.

Context {A : Type}.

Lemma subseq_refl (l : list A) : subseq l l.
Proof. induction l; [constructor | apply subseq_keep; auto]. Qed.

Lemma subseq_nil_l (l : list A) : subseq [] l.
Proof. induction l; constructor; auto. Qed.

Lemma subseq_app (a b c d : list A) :
  subseq a b -> subseq c d -> subseq (a ++ c) (b ++ d).
Proof.
  intros H1 H2. induction H1; simpl.
  - exact H2.
  - apply subseq_skip. exact IHsubseq.
  - apply subseq_keep. exact IHsubseq.
Qed.

Lemma subseq_remove (l1 l2 : list A) (x : A) : subseq (l1 ++ l2) (l1 ++ x :: l2).
Proof.
  apply subseq_app; [apply subseq_refl|]. apply subseq_skip. apply subseq_refl.
Qed.

Lemma subseq_trans (a b c : list A) : subseq a b -> subseq b c -> subseq a c.
Proof.
  intros Hab Hbc. revert a Hab.
  induction Hbc as [|x l1 l2 H IH|x l1 l2 H IH]; intros a Hab.
  - exact Hab.
  - constructor. auto.
  - inversion Hab; subst.
    + apply subseq_skip. auto.
    + apply subseq_keep. auto.
Qed.

Lemma subseq_In (a b : list A) x : subseq a b -> In x a -> In x b.
Proof.
  intros H. induction H; simpl; intuition.
Qed.

Lemma subseq_Forall (P : A -> Prop) (a b : list A) :
  subseq a b -> Forall P b -> Forall P a.
Proof.
  intros H HP. apply Forall_forall. intros x Hx.
  eapply Forall_forall; [exact HP|]. eapply subseq_In; eauto.
Qed.

Lemma subseq_StronglySorted (R : A -> A -> Prop) (a b : list A) :
  subseq a b -> StronglySorted R b -> StronglySorted R a.
Proof.
  intros H. induction H; intros HS; auto.
  - inversion HS; auto.
  - inversion HS; subst. constructor; auto. eapply subseq_Forall; eauto.
Qed.

End Subseq.

Create HintDb subseq.
#[export] Hint Resolve subseq_refl subseq_nil_l subseq_remove : subseq.

(** ** Array operations *)

Lemma findIndex_cases (p : todo -> bool) (l : list todo) :
  (findIndex p l = -1 /\ Forall (fun t => p t = false) l) \/
  (exists l1 t l2, l = l1 ++ t :: l2 /\ Forall (fun u => p u = false) l1 /\
                   p t = true /\ findIndex p l = Z.of_nat (length l1)).
Proof.
  induction l as [|x r IH]; simpl.
  - left. auto.
  - destruct (p x) eqn:Hx.
    + right. exists [], x, r. simpl. auto.
    + destruct IH as [[-> Hall] | (l1 & t & l2 & -> & Hl1 & Ht & ->)].
      * left. simpl. auto.
      * right. exists (x :: l1), t, l2. simpl. repeat split; auto.
        rewrite (proj2 (Z.eqb_neq _ _)) by lia. lia.
Qed.

Lemma splice1_at (l1 l2 : list todo) (t : todo) :
  splice1 (l1 ++ t :: l2) (Z.of_nat (length l1)) = l1 ++ l2.
Proof.
  unfold splice1. rewrite Nat2Z.id.
  induction l1 as [|x r IH]; simpl; [reflexivity|]. f_equal. exact IH.
Qed.

(** ** Numbers *)

Lemma round_double_small (z : Z) : Z.abs z <= 2 ^ 53 -> round_double z = z.
Proof. intros H. unfold round_double. rewrite (proj2 (Z.leb_le _ _) H). reflexivity. Qed.

(** Below 2^53 the counter steps by one; at 2^53 it stays there. *)
Lemma js_incr_counter (n : Z) : 1 <= n <= 2 ^ 53 -> js_incr n = Z.min (n + 1) (2 ^ 53).
Proof.
  intros H. unfold js_incr.
  destruct (Z.eq_dec n (2 ^ 53)) as [->|Hne].
  - vm_compute. reflexivity.
  - rewrite round_double_small by lia. lia.
Qed.

Lemma to_number_not_NaN (z : Z) : to_number z <> NaN.
Proof.
  unfold to_number. destruct (2 ^ 1024 <=? Z.abs (round_double z)); [destruct (z <? 0)|];
    discriminate.
Qed.

Lemma parseInt_NaN (s : jsstr) : parseInt s = NaN <-> parseInt_math s = None.
Proof.
  unfold parseInt. destruct (parseInt_math s); split; intros H; auto; try discriminate.
  exfalso. eapply to_number_not_NaN; eauto.
Qed.

(** ** The DELETE route *)

Lemma delete_todo_cases (cfg : env) (s : jsstr) (st : store) (n : Z) :
  parseInt s = Fin n ->
  (exists l1 t l2, st.(todos) = l1 ++ t :: l2 /\ Forall (fun u => u.(id) <> n) l1 /\
     t.(id) = n /\
     handle cfg (DeleteTodo s) st = (mkResp 204 BEmpty, mkStore (l1 ++ l2) st.(nextId)))
  \/ (Forall (fun u => u.(id) <> n) st.(todos) /\
      handle cfg (DeleteTodo s) st = (mkResp 404 (BError (js "Todo not found")), st)).
Proof.
  intros Hp. simpl. unfold delete_todo. rewrite Hp. simpl.
  destruct (findIndex_cases (fun t => id t =? n) (todos st))
    as [[-> Hall] | (l1 & t & l2 & Hl & Hl1 & Ht & ->)].
  - right. split; [|reflexivity].
    eapply Forall_impl; [|exact Hall]. intros u Hu. apply Z.eqb_neq. exact Hu.
  - left. exists l1, t, l2. repeat split; auto.
    + eapply Forall_impl; [|exact Hl1]. intros u Hu. apply Z.eqb_neq. exact Hu.
    + apply Z.eqb_eq. exact Ht.
    + rewrite (proj2 (Z.eqb_neq _ _)) by lia. rewrite Hl, splice1_at. reflexivity.
Qed.

(** ** One request, and runs of requests *)

Lemma subseq_map {A B : Type} (f : A -> B) (a b : list A) :
  subseq a b -> subseq (map f a) (map f b).
Proof.
  intros H. induction H; simpl.
  - constructor.
  - apply subseq_skip. exact IHsubseq.
  - apply subseq_keep. exact IHsubseq.
Qed.

Lemma StronglySorted_snoc (l : list Z) (y : Z) :
  StronglySorted Z.lt l -> Forall (fun x => x < y) l -> StronglySorted Z.lt (l ++ [y]).
Proof.
  induction l as [|x r IH]; simpl; intros HS Hlt.
  - repeat constructor.
  - inversion HS; subst. inversion Hlt; subst. constructor.
    + apply IH; auto.
    + apply Forall_app. split; auto.
Qed.

Lemma StronglySorted_lt_NoDup (l : list Z) : StronglySorted Z.lt l -> NoDup l.
Proof.
  induction l as [|x r IH]; intros HS; constructor; inversion HS; subst; auto.
  intros Hin. pose proof (proj1 (Forall_forall _ _) H2 x Hin). lia.
Qed.

(** Every request either leaves the store as it is, removes one record
    (keeping the counter), or appends the record it creates (with the id
    [nextId]) and steps the counter. *)
Lemma handle_step (cfg : env) (r : request) (st : store) (resp : response) (st' : store) :
  handle cfg r st = (resp, st') ->
  (st' = st /\ created [resp] = [])
  \/ (created [resp] = [] /\ st'.(nextId) = st.(nextId) /\
      exists l1 t l2, st.(todos) = l1 ++ t :: l2 /\ st'.(todos) = l1 ++ l2)
  \/ (exists t, created [resp] = [t] /\ t.(id) = st.(nextId) /\
      st' = mkStore (st.(todos) ++ [t]) (js_incr st.(nextId))).
Proof.
  intros Hh. destruct r as [|v now|p|now]; simpl in Hh.
  - injection Hh as <- <-. left. auto.
  - unfold post_todos in Hh.
    destruct (js_falsy v || negb (typeof_string v) || trims_empty v).
    + injection Hh as <- <-. left. auto.
    + destruct v as [[| | |s| |]|]; injection Hh as <- <-; try (left; auto; fail).
      right; right. eexists. split; [reflexivity|]. auto.
  - unfold delete_todo in Hh.
    destruct (isNaN (parseInt p)).
    + injection Hh as <- <-. left. auto.
    + destruct (findIndex_cases (fun t => num_strict_eq (Fin (id t)) (parseInt p)) (todos st))
        as [[Hf _] | (l1 & t & l2 & Hl & _ & _ & Hf)]; rewrite Hf in Hh.
      * injection Hh as <- <-. left. auto.
      * rewrite (proj2 (Z.eqb_neq _ _)) in Hh by lia.
        injection Hh as <- <-. right; left. split; [reflexivity|]. split; [reflexivity|].
        exists l1, t, l2. split; [exact Hl|]. simpl. rewrite Hl. apply splice1_at.
  - injection Hh as <- <-. left. auto.
Qed.

Lemma delete_keeps_counter (cfg : env) (p : jsstr) (st : store) :
  (snd (handle cfg (DeleteTodo p) st)).(nextId) = st.(nextId).
Proof.
  simpl. unfold delete_todo.
  destruct (isNaN (parseInt p)); [reflexivity|]. destruct (_ =? -1); reflexivity.
Qed.

Lemma run_cons_created (cfg : env) (st : store) (r : request) (rs : list request) :
  created (fst (run cfg st (r :: rs))) =
  created [fst (handle cfg r st)] ++ created (fst (run cfg (snd (handle cfg r st)) rs)).
Proof.
  simpl. destruct (handle cfg r st) as [resp st1]. simpl.
  destruct (run cfg st1 rs). simpl. rewrite app_nil_r. reflexivity.
Qed.

Lemma run_cons_store (cfg : env) (st : store) (r : request) (rs : list request) :
  snd (run cfg st (r :: rs)) = snd (run cfg (snd (handle cfg r st)) rs).
Proof.
  simpl. destruct (handle cfg r st) as [resp st1]. simpl.
  destruct (run cfg st1 rs). reflexivity.
Qed.

Lemma run_app (cfg : env) (st : store) (rs1 rs2 : list request) :
  run cfg st (rs1 ++ rs2) =
  (fst (run cfg st rs1) ++ fst (run cfg (snd (run cfg st rs1)) rs2),
   snd (run cfg (snd (run cfg st rs1)) rs2)).
Proof.
  revert st. induction rs1 as [|r rs IH]; intros st; simpl.
  - destruct (run cfg st rs2). reflexivity.
  - destruct (handle cfg r st) as [resp st1]. rewrite IH.
    destruct (run cfg st1 rs) as [resps st2]. simpl.
    destruct (run cfg st2 rs2). reflexivity.
Qed.

(** An invariant of single requests holds after any run. *)
Lemma run_preserves (cfg : env) (P : store -> Prop) :
  (forall r st, P st -> P (snd (handle cfg r st))) ->
  forall rs st, P st -> P (snd (run cfg st rs)).
Proof.
  intros Hstep rs. induction rs as [|r rs IH]; intros st Hst.
  - exact Hst.
  - rewrite run_cons_store. apply IH. apply Hstep. exact Hst.
Qed.

(** ** Invariants of the reachable stores *)

(** The counter stays in [1, 2^53] and every stored id is positive. *)
Definition counter_ok (st : store) : Prop :=
  1 <= st.(nextId) <= 2 ^ 53 /\ Forall (fun t => 1 <= t.(id)) st.(todos).

Lemma counter_ok_step (cfg : env) (r : request) (st : store) :
  counter_ok st -> counter_ok (snd (handle cfg r st)).
Proof.
  intros [Hn Hids]. destruct (handle cfg r st) as [resp st'] eqn:Hh. simpl.
  destruct (handle_step cfg r st resp st' Hh)
    as [[-> _] | [(_ & Hc & l1 & t & l2 & Hl & Hl') | (t & _ & Ht & ->)]].
  - split; auto.
  - split; [lia|]. rewrite Hl'. rewrite Hl in Hids.
    eapply subseq_Forall; [apply subseq_remove|exact Hids].
  - split; simpl.
    + rewrite js_incr_counter by lia. lia.
    + apply Forall_app. split; auto. constructor; auto. lia.
Qed.

Lemma counter_ok_reachable (cfg : env) (rs : list request) :
  counter_ok (snd (run cfg init_store rs)).
Proof.
  apply run_preserves; [apply counter_ok_step|].
  split; simpl; [lia | constructor].
Qed.

(** The stored records are a sub-sequence of those the run created. *)
Lemma run_subseq (cfg : env) (rs : list request) (st : store) :
  subseq (snd (run cfg st rs)).(todos) (st.(todos) ++ created (fst (run cfg st rs))).
Proof.
  revert st. induction rs as [|r rs IH]; intros st.
  - simpl. rewrite app_nil_r. apply subseq_refl.
  - rewrite run_cons_created, run_cons_store.
    destruct (handle cfg r st) as [resp st1] eqn:Hh. cbn [fst snd].
    eapply subseq_trans; [apply IH|]. rewrite app_assoc. apply subseq_app; [|apply subseq_refl].
    destruct (handle_step cfg r st resp st1 Hh)
      as [[-> ->] | [(-> & _ & l1 & t & l2 & Hl & ->) | (t & -> & _ & ->)]].
    + rewrite app_nil_r. apply subseq_refl.
    + rewrite app_nil_r, Hl. apply subseq_remove.
    + apply subseq_refl.
Qed.

(** After [c] records were created (at most 2^53), the counter is
    [min (c + 1) (2^53)] and the stored ids are increasing, in [1, c]. *)
Definition issued_inv (c : Z) (st : store) : Prop :=
  0 <= c /\ st.(nextId) = Z.min (c + 1) (2 ^ 53) /\
  Forall (fun t => 1 <= t.(id) <= c) st.(todos) /\ StronglySorted Z.lt (ids st.(todos)).

Lemma issued_inv_init : issued_inv 0 init_store.
Proof. repeat split; simpl; try lia; constructor. Qed.

Lemma run_issued (cfg : env) (rs : list request) :
  forall st c, issued_inv c st ->
  c + Z.of_nat (List.length (created (fst (run cfg st rs)))) <= 2 ^ 53 ->
  issued_inv (c + Z.of_nat (List.length (created (fst (run cfg st rs))))) (snd (run cfg st rs)) /\
  StronglySorted Z.lt (ids (created (fst (run cfg st rs)))) /\
  Forall (fun t => c < t.(id)) (created (fst (run cfg st rs))).
Proof.
  induction rs as [|r rs IH]; intros st c Hinv Hc.
  - simpl. rewrite Z.add_0_r. split; [exact Hinv | split; constructor].
  - rewrite run_cons_created, run_cons_store in *.
    destruct (handle cfg r st) as [resp st1] eqn:Hh. cbn [fst snd] in *.
    destruct Hinv as (Hc0 & Hn & Hall & Hsorted).
    destruct (handle_step cfg r st resp st1 Hh)
      as [[-> Hcr] | [(Hcr & Hn1 & l1 & t & l2 & Hl & Hl1) | (t & Hcr & Ht & ->)]];
      rewrite Hcr in *; simpl app in *.
    + apply IH; [repeat split; auto | exact Hc].
    + apply IH; [|exact Hc]. repeat split; auto.
      * rewrite Hn1. exact Hn.
      * rewrite Hl1. rewrite Hl in Hall.
        eapply subseq_Forall; [apply subseq_remove | exact Hall].
      * rewrite Hl1. rewrite Hl in Hsorted.
        eapply subseq_StronglySorted; [|exact Hsorted].
        unfold ids. rewrite !map_app. simpl. apply subseq_remove.
    + set (rest := created (fst (run cfg _ rs))) in *.
      cbn [List.length] in Hc. rewrite Nat2Z.inj_succ in Hc.
      assert (Hid : t.(id) = c + 1) by (rewrite Ht, Hn; lia).
      assert (Hinv1 : issued_inv (c + 1) (mkStore (todos st ++ [t]) (js_incr (nextId st)))).
      { repeat split; simpl; try lia.
        - rewrite Hn, Z.min_l by lia. rewrite js_incr_counter by lia. lia.
        - apply Forall_app. split.
          + eapply Forall_impl; [|exact Hall]. intros u Hu. cbv beta in *. lia.
          + constructor; [lia | constructor].
        - unfold ids. rewrite map_app. simpl. apply StronglySorted_snoc; [exact Hsorted|].
          apply Forall_map. eapply Forall_impl; [|exact Hall]. intros u Hu. cbv beta in *. lia. }
      destruct (IH _ (c + 1) Hinv1) as (Hi & Hs & Hf); [unfold rest in Hc; lia|].
      split; [|split].
      * replace (c + Z.of_nat (List.length (t :: rest)))
          with (c + 1 + Z.of_nat (List.length rest)) by (cbn [List.length]; lia).
        exact Hi.
      * simpl. constructor; [exact Hs|].
        apply Forall_map. eapply Forall_impl; [|exact Hf]. intros u Hu. cbv beta in *. lia.
      * constructor; [lia|]. eapply Forall_impl; [|exact Hf]. intros u Hu. cbv beta in *. lia.
Qed.

(** ** Trimming *)

Lemma trim_start_app (a b : jsstr) :
  trim_start (a ++ b) = match trim_start a with [] => trim_start b | x => x ++ b end.
Proof.
  induction a as [|c r IH]; simpl; [reflexivity|].
  destruct (is_ws c); [exact IH | reflexivity].
Qed.

Lemma trim_start_head (s : jsstr) (c : Z) (r : jsstr) :
  trim_start s = c :: r -> is_ws c = false.
Proof.
  induction s as [|x s IH]; simpl; [discriminate|].
  destruct (is_ws x) eqn:E; [exact IH|]. intros H. injection H as -> ->. exact E.
Qed.

Lemma js_trim_ends (s : jsstr) :
  (forall c r, js_trim s = c :: r -> is_ws c = false) /\
  (forall r c, js_trim s = r ++ [c] -> is_ws c = false).
Proof.
  unfold js_trim, trim_end. split.
  - intros c r H. destruct (trim_start s) as [|d w] eqn:Hs; [discriminate|].
    pose proof (trim_start_head s d w Hs) as Hd.
    simpl in H. rewrite trim_start_app in H. simpl in H. rewrite Hd in H.
    destruct (trim_start (rev w)) as [|x y]; simpl in H.
    + injection H as -> _. exact Hd.
    + rewrite rev_app_distr in H. simpl in H. injection H as -> _. exact Hd.
  - intros r c H.
    apply (f_equal (@rev Z)) in H. rewrite rev_involutive, rev_app_distr in H.
    simpl in H. eapply trim_start_head. exact H.
Qed.

(** ** Decimal identifiers *)

Lemma digit_not_ws (c : Z) : 48 <= c <= 57 -> is_ws c = false.
Proof.
  intros H.
  assert (c = 48 \/ c = 49 \/ c = 50 \/ c = 51 \/ c = 52 \/ c = 53 \/ c = 54 \/
          c = 55 \/ c = 56 \/ c = 57) as Hc by lia.
  repeat destruct Hc as [-> | Hc]; try reflexivity. subst. reflexivity.
Qed.

Lemma digit_prefix_decimal (l : jsstr) :
  Forall (fun c => 48 <= c <= 57) l -> digit_prefix 10 l = map (fun c => c - 48) l.
Proof.
  induction l as [|c r IH]; intros HF; [reflexivity|].
  inversion HF as [|? ? Hc Hr]; subst. simpl.
  assert (Hv : digit_value c = c - 48).
  { unfold digit_value. rewrite (proj2 (Z.leb_le 48 c)), (proj2 (Z.leb_le c 57)) by lia.
    reflexivity. }
  rewrite Hv, (proj2 (Z.ltb_lt _ _)) by lia. f_equal. apply IH. exact Hr.
Qed.

Lemma parseInt_math_decimal (l : jsstr) :
  l <> [] -> Forall (fun c => 48 <= c <= 57) l ->
  parseInt_math l = Some (digits_value 10 (map (fun c => c - 48) l)).
Proof.
  intros Hne HF. destruct l as [|d rest]; [contradiction|].
  inversion HF as [|? ? Hd Hrest]; subst.
  unfold parseInt_math. cbn [trim_start]. rewrite (digit_not_ws d Hd).
  rewrite (proj2 (Z.eqb_neq d 45)), (proj2 (Z.eqb_neq d 43)) by lia. simpl orb.
  assert (Hp : digit_prefix 10 (d :: rest) = map (fun c => c - 48) (d :: rest))
    by (apply digit_prefix_decimal; exact HF).
  destruct rest as [|c1 r].
  - rewrite Hp. cbn [map]. rewrite Z.mul_1_l. reflexivity.
  - inversion Hrest as [|? ? Hc1 _]; subst.
    rewrite (proj2 (Z.eqb_neq c1 120)), (proj2 (Z.eqb_neq c1 88)) by lia.
    rewrite andb_false_r. rewrite Hp. cbn [map]. rewrite Z.mul_1_l. reflexivity.
Qed.

Lemma digits_value_snoc (l : list Z) (d : Z) :
  digits_value 10 (l ++ [d]) = digits_value 10 l * 10 + d.
Proof. unfold digits_value. rewrite fold_left_app. reflexivity. Qed.

Lemma dec_rev_S (f : nat) (z : Z) :
  dec_rev (S f) z = (48 + z mod 10) :: (if z <? 10 then [] else dec_rev f (z / 10)).
Proof. reflexivity. Qed.

Lemma dec_rev_spec (f : nat) (z : Z) :
  0 <= z < 10 ^ Z.of_nat (S f) ->
  dec_rev (S f) z <> [] /\ Forall (fun c => 48 <= c <= 57) (dec_rev (S f) z) /\
  digits_value 10 (map (fun c => c - 48) (rev (dec_rev (S f) z))) = z.
Proof.
  revert z. induction f as [|f IH]; intros z Hz.
  - assert (z < 10) by (simpl in Hz; lia).
    cbn [dec_rev]. rewrite (proj2 (Z.ltb_lt z 10)) by lia.
    rewrite (Z.mod_small z 10) by lia.
    split; [discriminate|]. split.
    + constructor; [lia | constructor].
    + unfold digits_value. cbn [rev app map fold_left]. lia.
  - rewrite dec_rev_S. destruct (z <? 10) eqn:Hlt.
    + apply Z.ltb_lt in Hlt. rewrite (Z.mod_small z 10) by lia.
      split; [discriminate|]. split.
      * constructor; [lia | constructor].
      * unfold digits_value. cbn [rev app map fold_left]. lia.
    + apply Z.ltb_ge in Hlt.
      assert (Hq : 0 <= z / 10 < 10 ^ Z.of_nat (S f)).
      { split; [apply Z.div_pos; lia|].
        apply Z.div_lt_upper_bound; [lia|].
        rewrite Nat2Z.inj_succ, Z.pow_succ_r in Hz by lia.
        rewrite Nat2Z.inj_succ in *. lia. }
      destruct (IH (z / 10) Hq) as (_ & HF & Hv).
      pose proof (Z.mod_pos_bound z 10 ltac:(lia)) as Hm.
      split; [discriminate|]. split.
      * constructor; [lia | exact HF].
      * cbn [rev]. rewrite map_app. cbn [map]. rewrite digits_value_snoc, Hv.
        pose proof (Z.div_mod z 10 ltac:(lia)). lia.
Qed.

Lemma parseInt_dec (z : Z) : 1 <= z <= 2 ^ 53 -> parseInt (dec z) = Fin z.
Proof.
  intros Hz.
  destruct (dec_rev_spec 19 z) as (Hne & HF & Hv); [simpl; lia|].
  unfold parseInt, dec. rewrite parseInt_math_decimal.
  - rewrite Hv. unfold to_number. rewrite round_double_small by lia.
    rewrite (proj2 (Z.leb_gt _ _)) by (rewrite Z.abs_eq by lia; lia). reflexivity.
  - intros H. apply Hne. apply (f_equal (@rev Z)) in H.
    rewrite rev_involutive in H. exact H.
  - apply Forall_rev. exact HF.
Qed.

(** ** Create/delete rounds *)

Lemma one_round (cfg : env) (n : Z) :
  1 <= n < 2 ^ 53 ->
  run cfg (mkStore [] n) [post "t" []; DeleteTodo (dec n)] =
  ([mkResp 201 (BTodo (mkTodo n (js "t") [])); mkResp 204 BEmpty], mkStore [] (n + 1)).
Proof.
  intros Hn. assert (Hp : parseInt (dec n) = Fin n) by (apply parseInt_dec; lia).
  revert Hp. generalize (dec n). intros d Hp.
  simpl. unfold delete_todo. rewrite Hp. simpl. rewrite Z.eqb_refl. simpl.
  rewrite js_incr_counter, Z.min_l by lia. reflexivity.
Qed.

Lemma created_app (a b : list response) : created (a ++ b) = created a ++ created b.
Proof. unfold created. apply flat_map_app. Qed.

Lemma rounds_run (cfg : env) (n : nat) :
  Z.of_nat n < 2 ^ 53 ->
  snd (run cfg init_store (create_delete_rounds n)) = mkStore [] (Z.of_nat n + 1) /\
  List.length (created (fst (run cfg init_store (create_delete_rounds n)))) = n.
Proof.
  induction n as [|k IH]; intros Hk; [split; reflexivity|].
  destruct IH as [Hs Hl]; [lia|].
  cbn [create_delete_rounds]. rewrite run_app. cbn [fst snd]. rewrite Hs.
  rewrite one_round by lia. cbn [fst snd]. split.
  - rewrite Nat2Z.inj_succ. f_equal; lia.
  - rewrite created_app, length_app, Hl; simpl; lia.
Qed.

Lemma rounds_to_2_53_value : Z.of_nat rounds_to_2_53 = 2 ^ 53 - 1.
Proof. unfold rounds_to_2_53. rewrite Z2Nat.id; lia. Qed.

(** After 2^53 - 1 rounds the counter holds 2^53. *)
Lemma after_rounds (cfg : env) :
  snd (run cfg init_store (create_delete_rounds rounds_to_2_53)) = mkStore [] (2 ^ 53).
Proof.
  rewrite (proj1 (rounds_run cfg rounds_to_2_53 ltac:(rewrite rounds_to_2_53_value; lia))).
  rewrite rounds_to_2_53_value. f_equal; lia.
Qed.

Lemma run_app_store (cfg : env) (st : store) (rs1 rs2 : list request) :
  snd (run cfg st (rs1 ++ rs2)) = snd (run cfg (snd (run cfg st rs1)) rs2).
Proof. rewrite run_app. reflexivity. Qed.

Lemma run_app_created (cfg : env) (st : store) (rs1 rs2 : list request) :
  created (fst (run cfg st (rs1 ++ rs2))) =
  created (fst (run cfg st rs1)) ++ created (fst (run cfg (snd (run cfg st rs1)) rs2)).
Proof. rewrite run_app. cbn [fst]. apply created_app. Qed.

Lemma store_after (cfg : env) (rs0 rs : list request) (st0 : store) :
  snd (run cfg init_store rs0) = st0 ->
  snd (run cfg init_store (rs0 ++ rs)) = snd (run cfg st0 rs).
Proof. intros <-. apply run_app_store. Qed.

Lemma StronglySorted_app_r {A : Type} (R : A -> A -> Prop) (l m : list A) :
  StronglySorted R (l ++ m) -> StronglySorted R m.
Proof.
  induction l as [|x r IH]; simpl; intros H; [exact H|].
  inversion H; subst. apply IH. assumption.
Qed.

Lemma sorted_created_after (cfg : env) (rs0 rs : list request) (st0 : store) :
  snd (run cfg init_store rs0) = st0 ->
  StronglySorted Z.lt (ids (created (fst (run cfg init_store (rs0 ++ rs))))) ->
  StronglySorted Z.lt (ids (created (fst (run cfg st0 rs)))).
Proof.
  intros <- H. rewrite run_app_created in H. unfold ids in *. rewrite map_app in H.
  eapply StronglySorted_app_r. exact H.
Qed.

(** ** Trimming, continued *)

Lemma trim_start_nil (s : jsstr) : trim_start s = [] <-> forallb is_ws s = true.
Proof.
  induction s as [|c r IH]; simpl; [split; auto|].
  destruct (is_ws c); simpl; [exact IH | split; discriminate].
Qed.

Lemma trim_start_split (s : jsstr) :
  exists a, s = a ++ trim_start s /\ forallb is_ws a = true.
Proof.
  induction s as [|c r IH]; simpl; [exists []; auto|].
  destruct (is_ws c) eqn:E.
  - destruct IH as (a & Ha & Hf). exists (c :: a). simpl. rewrite E, Hf, <- Ha. auto.
  - exists []. auto.
Qed.

Lemma trim_start_fixed (s : jsstr) :
  (forall c r, s = c :: r -> is_ws c = false) -> trim_start s = s.
Proof.
  destruct s as [|c r]; simpl; [reflexivity|]. intros H. rewrite (H c r eq_refl). reflexivity.
Qed.

Lemma trim_start_idem (s : jsstr) : trim_start (trim_start s) = trim_start s.
Proof. apply trim_start_fixed. intros c r H. eapply trim_start_head. exact H. Qed.

Lemma trim_start_ws_app (w s : jsstr) :
  forallb is_ws w = true -> trim_start (w ++ s) = trim_start s.
Proof.
  induction w as [|c r IH]; simpl; [reflexivity|].
  intros H. apply andb_prop in H as [-> H]. apply IH. exact H.
Qed.

Lemma js_trim_idem (s : jsstr) : js_trim (js_trim s) = js_trim s.
Proof.
  assert (H1 : trim_start (js_trim s) = js_trim s).
  { apply trim_start_fixed. apply (proj1 (js_trim_ends s)). }
  unfold js_trim at 1. rewrite H1. unfold js_trim, trim_end.
  rewrite rev_involutive, trim_start_idem. reflexivity.
Qed.

Lemma js_trim_nil (s : jsstr) : js_trim s = [] <-> forallb is_ws s = true.
Proof.
  rewrite <- trim_start_nil. unfold js_trim, trim_end. split; intros H.
  - destruct (trim_start s) as [|c r] eqn:E; [reflexivity|].
    exfalso. pose proof (trim_start_head s c r E) as Hc.
    apply (f_equal (@rev Z)) in H. rewrite rev_involutive in H. simpl in H.
    rewrite trim_start_app in H. simpl in H. rewrite Hc in H.
    destruct (trim_start (rev r)); discriminate.
  - rewrite H. reflexivity.
Qed.

Lemma js_trim_split (s : jsstr) :
  exists a b, s = a ++ js_trim s ++ b /\ forallb is_ws a = true /\ forallb is_ws b = true.
Proof.
  destruct (trim_start_split s) as (a & Ha & Hfa).
  destruct (trim_start_split (rev (trim_start s))) as (b' & Hb & Hfb).
  exists a, (rev b'). split; [|split; [exact Hfa|]].
  - transitivity (a ++ trim_start s); [exact Ha|]. f_equal.
    apply (f_equal (@rev Z)) in Hb. rewrite rev_involutive, rev_app_distr in Hb. exact Hb.
  - rewrite forallb_forall in *. intros x Hx. apply Hfb. apply in_rev. exact Hx.
Qed.

(** A POST whose [text] is a string. *)
Lemma post_string (cfg : env) (s now : jsstr) (st : store) :
  handle cfg (PostTodos (Some (JStr s)) now) st =
  if forallb is_ws s then (mkResp 400 (BError post_error), st)
  else (mkResp 201 (BTodo (mkTodo st.(nextId) (js_trim s) now)),
        mkStore (st.(todos) ++ [mkTodo st.(nextId) (js_trim s) now]) (js_incr st.(nextId))).
Proof.
  simpl. unfold post_todos, trims_empty. cbn [js_falsy typeof_string negb].
  destruct s as [|c r]; [reflexivity|]. simpl orb.
  destruct (forallb is_ws (c :: r)) eqn:E.
  - apply js_trim_nil in E. rewrite E. reflexivity.
  - destruct (js_trim (c :: r)) eqn:T; [|reflexivity].
    apply js_trim_nil in T. congruence.
Qed.

(** ** parseInt, continued *)

Lemma digit_value_nondec (c : Z) : ~ (48 <= c <= 57) -> 10 <= digit_value c.
Proof.
  intros H. unfold digit_value.
  destruct ((48 <=? c) && (c <=? 57)) eqn:E1;
    [apply andb_prop in E1 as [E1 E2]; apply Z.leb_le in E1, E2; lia|].
  destruct ((97 <=? c) && (c <=? 122)) eqn:E2;
    [apply andb_prop in E2 as [E2 E3]; apply Z.leb_le in E2, E3; lia|].
  destruct ((65 <=? c) && (c <=? 90)) eqn:E3;
    [apply andb_prop in E3 as [E3 E4]; apply Z.leb_le in E3, E4; lia|].
  lia.
Qed.

Lemma digit_prefix_stop (ds t : jsstr) :
  Forall (fun c => 48 <= c <= 57) ds -> digit_prefix 10 t = [] ->
  digit_prefix 10 (ds ++ t) = map (fun c => c - 48) ds.
Proof.
  induction ds as [|c r IH]; intros HF Ht; [exact Ht|].
  inversion HF as [|? ? Hc Hr]; subst. simpl.
  assert (Hv : digit_value c = c - 48).
  { unfold digit_value. rewrite (proj2 (Z.leb_le 48 c)), (proj2 (Z.leb_le c 57)) by lia.
    reflexivity. }
  rewrite Hv, (proj2 (Z.ltb_lt _ _)) by lia. f_equal. apply IH; assumption.
Qed.

Lemma parseInt_math_trim_start (a b : jsstr) :
  trim_start a = trim_start b -> parseInt_math a = parseInt_math b.
Proof. intros H. unfold parseInt_math. rewrite H. reflexivity. Qed.

Lemma parseInt_math_leading (ds t : jsstr) :
  ds <> [] -> Forall (fun c => 48 <= c <= 57) ds -> digit_prefix 10 t = [] ->
  ~ (ds = [48] /\ exists c r, t = c :: r /\ (c = 120 \/ c = 88)) ->
  parseInt_math (ds ++ t) = Some (digits_value 10 (map (fun c => c - 48) ds)).
Proof.
  intros Hne HF Ht Hx. destruct ds as [|d rest]; [contradiction|].
  inversion HF as [|? ? Hd Hrest]; subst.
  pose proof (digit_prefix_stop (d :: rest) t HF Ht) as Hp.
  unfold parseInt_math. cbn [app trim_start]. rewrite (digit_not_ws d Hd).
  rewrite (proj2 (Z.eqb_neq d 45)), (proj2 (Z.eqb_neq d 43)) by lia. simpl orb.
  cbn [app] in Hp.
  assert (Hhex : match rest ++ t with
                 | c1 :: _ => (d =? 48) && ((c1 =? 120) || (c1 =? 88))
                 | [] => false end = false).
  { destruct rest as [|c1 r1].
    - destruct t as [|c r]; [reflexivity|]. cbn [app].
      destruct (Z.eq_dec d 48) as [->|Hd48].
      + assert (Hc : c <> 120 /\ c <> 88)
          by (split; intros Hc; apply Hx; split; [reflexivity | exists c, r; auto
                                                  | reflexivity | exists c, r; auto]).
        rewrite (proj2 (Z.eqb_neq c 120)), (proj2 (Z.eqb_neq c 88)) by apply Hc.
        reflexivity.
      + rewrite (proj2 (Z.eqb_neq d 48)) by exact Hd48. reflexivity.
    - inversion Hrest as [|? ? Hc1 _]; subst. cbn [app].
      rewrite (proj2 (Z.eqb_neq c1 120)), (proj2 (Z.eqb_neq c1 88)) by lia.
      apply andb_false_r. }
  destruct (rest ++ t) as [|c1 r1] eqn:E.
  - rewrite Hp. cbn [map]. rewrite Z.mul_1_l. reflexivity.
  - rewrite Hhex, Hp. cbn [map]. rewrite Z.mul_1_l. reflexivity.
Qed.

Lemma digits_value_nonneg_acc (R : Z) (l : list Z) (acc : Z) :
  0 <= R -> 0 <= acc -> Forall (fun d => 0 <= d) l ->
  0 <= fold_left (fun acc d => acc * R + d) l acc.
Proof.
  intros HR. revert acc. induction l as [|d r IH]; intros acc Ha HF; simpl; [exact Ha|].
  inversion HF; subst. apply IH; auto. nia.
Qed.

Lemma digit_prefix_hex (h : jsstr) :
  Forall (fun c => digit_value c < 16) h -> digit_prefix 16 h = map digit_value h.
Proof.
  induction h as [|c r IH]; intros HF; [reflexivity|].
  inversion HF; subst. simpl. rewrite (proj2 (Z.ltb_lt _ _)) by assumption.
  f_equal. apply IH. assumption.
Qed.

Lemma parseInt_math_hex (x : Z) (h : jsstr) :
  x = 120 \/ x = 88 -> h <> [] -> Forall (fun c => digit_value c < 16) h ->
  parseInt_math (48 :: x :: h) = Some (digits_value 16 (map digit_value h)).
Proof.
  intros Hx Hne HF. unfold parseInt_math. cbn [trim_start is_ws].
  simpl.
  replace ((x =? 120) || (x =? 88)) with true by (destruct Hx as [-> | ->]; reflexivity).
  cbv iota beta. rewrite digit_prefix_hex by exact HF.
  destruct h as [|c r]; [contradiction|]. cbn [map].
  destruct (digits_value 16 _); reflexivity.
Qed.

(** ** Responses and store sizes *)

Lemma delete_subseq (cfg : env) (p : jsstr) (st : store) :
  subseq (snd (handle cfg (DeleteTodo p) st)).(todos) st.(todos).
Proof.
  simpl. unfold delete_todo. destruct (isNaN (parseInt p)); [apply subseq_refl|].
  destruct (findIndex_cases (fun t => num_strict_eq (Fin (id t)) (parseInt p)) (todos st))
    as [[-> _] | (l1 & t & l2 & Hl & _ & _ & ->)]; [apply subseq_refl|].
  rewrite (proj2 (Z.eqb_neq _ _)) by lia. simpl. rewrite Hl, splice1_at. apply subseq_remove.
Qed.

Lemma findIndex_none (p : todo -> bool) (l : list todo) :
  Forall (fun t => p t = false) l -> findIndex p l = -1.
Proof.
  intros H. destruct (findIndex_cases p l) as [[-> _] | (l1 & t & l2 & -> & _ & Ht & _)];
    [reflexivity|].
  apply Forall_app in H as [_ H]. inversion H. congruence.
Qed.

(** The shape of one response. *)
Lemma handle_shape (cfg : env) (r : request) (st : store) :
  let resp := fst (handle cfg r st) in
  (resp.(status) = 200 /\ ((exists l, resp.(payload) = BTodos l) \/
                          exists now, resp.(payload) = BHealth (js "OK") now (APP_NAME cfg) (APP_DESCRIPTION cfg))) \/
  (resp.(status) = 201 /\ exists t, resp.(payload) = BTodo t) \/
  (resp.(status) = 204 /\ resp.(payload) = BEmpty) \/
  (resp.(status) = 400 /\ (resp.(payload) = BError post_error \/
                           resp.(payload) = BError (js "Invalid todo ID"))) \/
  (resp.(status) = 404 /\ resp.(payload) = BError (js "Todo not found")).
Proof.
  destruct r as [|v now|p|now]; simpl.
  - left. split; [reflexivity|]. left. eauto.
  - unfold post_todos.
    destruct (js_falsy v || negb (typeof_string v) || trims_empty v).
    + right; right; right; left. simpl. auto.
    + destruct v as [[| | |s| |]|]; simpl; try (right; right; right; left; auto; fail).
      right; left. eauto.
  - unfold delete_todo. destruct (isNaN (parseInt p)).
    + right; right; right; left. simpl. auto.
    + destruct (_ =? -1); simpl; [right; right; right; right | right; right; left]; auto.
  - left. split; [reflexivity|]. right. eauto.
Qed.

(** How one response relates the sizes of the stores. *)
Lemma handle_length (cfg : env) (r : request) (st : store) :
  let resp := fst (handle cfg r st) in
  let st' := snd (handle cfg r st) in
  (resp.(status) = 201 /\ List.length st'.(todos) = S (List.length st.(todos))) \/
  (resp.(status) = 204 /\ S (List.length st'.(todos)) = List.length st.(todos)) \/
  (resp.(status) <> 201 /\ resp.(status) <> 204 /\ st' = st).
Proof.
  destruct r as [|v now|p|now]; simpl.
  - right; right. repeat split; discriminate.
  - unfold post_todos.
    destruct (js_falsy v || negb (typeof_string v) || trims_empty v).
    + right; right. repeat split; discriminate.
    + destruct v as [[| | |s| |]|]; simpl; try (right; right; repeat split; discriminate).
      left. split; [reflexivity|]. rewrite length_app. simpl. lia.
  - unfold delete_todo. destruct (isNaN (parseInt p)).
    + right; right. repeat split; discriminate.
    + destruct (findIndex_cases (fun t => num_strict_eq (Fin (id t)) (parseInt p)) (todos st))
        as [[-> _] | (l1 & t & l2 & Hl & _ & _ & ->)].
      * right; right. repeat split; discriminate.
      * rewrite (proj2 (Z.eqb_neq _ _)) by lia. right; left. simpl. split; [reflexivity|].
        rewrite Hl, splice1_at, !length_app. simpl. lia.
  - right; right. repeat split; discriminate.
Qed.

Lemma count_status_cons (k : Z) (r : response) (rs : list response) :
  count_status k (r :: rs) = Nat.add (if Z.eqb r.(status) k then 1%nat else 0%nat) (count_status k rs).
Proof. unfold count_status. simpl. destruct (status r =? k); reflexivity. Qed.

Lemma run_cons_fst (cfg : env) (st : store) (r : request) (rs : list request) :
  fst (run cfg st (r :: rs)) = fst (handle cfg r st) :: fst (run cfg (snd (handle cfg r st)) rs).
Proof.
  simpl. destruct (handle cfg r st) as [resp st1]. simpl. destruct (run cfg st1 rs). reflexivity.
Qed.

Lemma counter_run (cfg : env) (rs : list request) (st : store) :
  1 <= st.(nextId) <= 2 ^ 53 ->
  (snd (run cfg st rs)).(nextId) =
  Z.min (st.(nextId) + Z.of_nat (List.length (created (fst (run cfg st rs))))) (2 ^ 53).
Proof.
  revert st. induction rs as [|r rs IH]; intros st Hn; [simpl; lia|].
  rewrite run_cons_store, run_cons_created.
  destruct (handle cfg r st) as [resp st1] eqn:Hh. cbn [fst snd].
  destruct (handle_step cfg r st resp st1 Hh)
    as [[-> ->] | [(-> & Hc & _) | (t & -> & _ & ->)]].
  - simpl. apply IH. exact Hn.
  - simpl. rewrite IH by lia. rewrite Hc. reflexivity.
  - cbn [app List.length]. simpl nextId. rewrite js_incr_counter by lia.
    rewrite IH by (cbn [nextId]; lia). cbn [nextId]. lia.
Qed.

Lemma text_ok_step (cfg : env) (r : request) (st : store) :
  text_ok st -> text_ok (snd (handle cfg r st)).
Proof.
  intros H. destruct r as [|v now|p|now].
  - exact H.
  - simpl. unfold post_todos.
    destruct (js_falsy v || negb (typeof_string v) || trims_empty v) eqn:E; [exact H|].
    destruct v as [[| | |s| |]|]; try exact H.
    unfold text_ok. simpl. apply Forall_app. split; [exact H|]. constructor; [|constructor].
    simpl. split; [|apply js_trim_idem].
    intros Hn. rewrite !orb_false_iff in E. destruct E as [_ E].
    unfold trims_empty in E. rewrite Hn in E. discriminate.
  - eapply subseq_Forall; [apply delete_subseq | exact H].
  - exact H.
Qed.

Lemma ids_below_step (cfg : env) (r : request) (st : store) :
  ids_below st -> ids_below (snd (handle cfg r st)).
Proof.
  intros [Hn Hall]. destruct (handle cfg r st) as [resp st'] eqn:Hh. simpl.
  destruct (handle_step cfg r st resp st' Hh)
    as [[-> _] | [(_ & Hc & l1 & t & l2 & Hl & Hl') | (t & _ & Ht & ->)]].
  - split; assumption.
  - split; [lia|]. rewrite Hl', Hc. rewrite Hl in Hall.
    eapply subseq_Forall; [apply subseq_remove|exact Hall].
  - unfold ids_below. cbn [nextId todos]. rewrite js_incr_counter by lia. split; [lia|].
    apply Forall_app. split.
    + eapply Forall_impl; [|exact Hall]. intros u Hu. cbv beta in *. lia.
    + constructor; [lia | constructor].
Qed.

Lemma ids_below_reachable (cfg : env) (rs : list request) :
  ids_below (snd (run cfg init_store rs)).
Proof.
  apply (run_preserves cfg ids_below); [apply ids_below_step|].
  split; [simpl; lia | constructor].
Qed.

(** * The claims *)

(** ** Deleting with an identifier that is not an integer *)

(** C1 (counterexample): the claim that every identifier not denoting an
    integer is rejected with 400 fails at "1abc": parseInt reads its leading
    1, and the record 1 is deleted with 204. *)
Lemma delete_non_integer_counterexample :
  ~ (forall (cfg : env) (s : jsstr) (st : store),
        denotes_integer s = false ->
        handle cfg (DeleteTodo s) st = (mkResp 400 (BError (js "Invalid todo ID")), st)).
Proof.
  intros H.
  specialize (H cfg0 (js "1abc") store_with_1 eq_refl).
  vm_compute in H. discriminate H.
Qed.

(** C1 (amended): DELETE /api/todos/:id answers 400 {error: "Invalid todo
    ID"} and leaves the store unchanged exactly when parseInt of the
    identifier is NaN, that is when no digit follows the leading white space,
    the optional sign and the optional 0x/0X prefix; otherwise the status is
    not 400. *)
Theorem delete_rejects_exactly_NaN (cfg : env) (s : jsstr) (st : store) :
  (parseInt s = NaN <-> parseInt_math s = None) /\
  (parseInt s = NaN ->
     handle cfg (DeleteTodo s) st = (mkResp 400 (BError (js "Invalid todo ID")), st)) /\
  (parseInt s <> NaN -> (fst (handle cfg (DeleteTodo s) st)).(status) <> 400).
Proof.
  split; [apply parseInt_NaN|]. split.
  - intros H. simpl. unfold delete_todo. rewrite H. reflexivity.
  - intros H. simpl. unfold delete_todo.
    destruct (parseInt s); [contradiction| | |];
      simpl; destruct (_ =? -1); simpl; discriminate.
Qed.

(** ** Rejected creations *)

(** C2: a POST whose [text] is absent, not a string, or trims to the empty
    string answers 400 with the validation message and leaves the store
    (records and counter) unchanged. *)
Theorem post_rejects_invalid_text (cfg : env) (v : option jsval) (now : jsstr) (st : store) :
  v = None \/ typeof_string v = false \/ (exists s, v = Some (JStr s) /\ js_trim s = []) ->
  handle cfg (PostTodos v now) st = (mkResp 400 (BError post_error), st).
Proof.
  intros H. simpl. unfold post_todos.
  destruct H as [-> | [H | (s & -> & Hs)]].
  - reflexivity.
  - replace (js_falsy v || negb (typeof_string v) || trims_empty v) with true.
    + reflexivity.
    + rewrite H. destruct (js_falsy v); reflexivity.
  - unfold trims_empty. rewrite Hs, orb_true_r. reflexivity.
Qed.

(** ** Deleting with an integer identifier *)

(** C3: for an identifier that parses to the integer [n], if a record with
    id [n] is stored the answer is 204 with an empty body, exactly that
    record (the first with id [n]) is removed, the others stay as they were
    and the counter is unchanged; if none is stored the answer is 404 {error:
    "Todo not found"} and the store is unchanged. *)
Theorem delete_semantics (cfg : env) (s : jsstr) (st : store) (n : Z) :
  parseInt s = Fin n ->
  ((exists t, In t st.(todos) /\ t.(id) = n) ->
     exists l1 t l2,
       st.(todos) = l1 ++ t :: l2 /\ t.(id) = n /\ Forall (fun u => u.(id) <> n) l1 /\
       handle cfg (DeleteTodo s) st = (mkResp 204 BEmpty, mkStore (l1 ++ l2) st.(nextId)) /\
       List.length (l1 ++ l2) = pred (List.length st.(todos))) /\
  ((forall t, In t st.(todos) -> t.(id) <> n) ->
     handle cfg (DeleteTodo s) st = (mkResp 404 (BError (js "Todo not found")), st)).
Proof.
  intros Hp.
  destruct (delete_todo_cases cfg s st n Hp)
    as [(l1 & t & l2 & Hl & Hl1 & Ht & Hh) | (Hall & Hh)].
  - split.
    + intros _. exists l1, t, l2. repeat split; auto.
      rewrite Hl, !length_app. simpl. lia.
    + intros Habs. exfalso. apply (Habs t); auto.
      rewrite Hl. apply in_or_app. right. left. reflexivity.
  - split.
    + intros (t & Hin & Ht). exfalso.
      exact (proj1 (Forall_forall _ _) Hall t Hin Ht).
    + intros _. exact Hh.
Qed.

(** ** Reads *)

(** C9: GET /api/todos and GET /api/health leave the store unchanged; only
    the POST and DELETE routes change it. *)
Theorem reads_leave_store (cfg : env) (st : store) :
  snd (handle cfg GetTodos st) = st /\
  (forall now, snd (handle cfg (GetHealth now) st) = st) /\
  (forall r, (forall v now, r <> PostTodos v now) -> (forall p, r <> DeleteTodo p) ->
     snd (handle cfg r st) = st).
Proof.
  repeat split.
  intros r Hpost Hdel. destruct r as [|v now|p|now].
  - reflexivity.
  - exfalso. exact (Hpost v now eq_refl).
  - exfalso. exact (Hdel p eq_refl).
  - reflexivity.
Qed.

(** ** Identifiers *)

(** C4 (counterexample): after 2^53 - 1 rounds of creating and deleting a
    record the counter holds 2^53, and [nextId++] on the Number 2^53 gives
    2^53 again (2^53 + 1 is not a double and rounds to it); two more POSTs
    then store two records with the id 2^53. *)
Lemma ids_distinct_counterexample :
  ~ (forall (cfg : env) (rs : list request), NoDup (ids (snd (run cfg init_store rs)).(todos))).
Proof.
  intros H.
  specialize (H cfg0 (create_delete_rounds rounds_to_2_53 ++ [post "x" []; post "y" []])).
  rewrite (store_after cfg0 (create_delete_rounds rounds_to_2_53) [post "x" []; post "y" []]
             (mkStore [] (2 ^ 53)) (after_rounds cfg0)) in H.
  vm_compute in H. inversion H as [|? ? Hnotin _]. apply Hnotin. left. reflexivity.
Qed.

(** C4 (amended): after any sequence of requests from the empty store in
    which at most 2^53 records were created, the stored ids are pairwise
    distinct. *)
Theorem ids_distinct (cfg : env) (rs : list request) :
  Z.of_nat (List.length (created (fst (run cfg init_store rs)))) <= 2 ^ 53 ->
  NoDup (ids (snd (run cfg init_store rs)).(todos)).
Proof.
  intros Hc.
  destruct (run_issued cfg rs init_store 0 issued_inv_init Hc) as ((_ & _ & _ & Hs) & _).
  apply StronglySorted_lt_NoDup. exact Hs.
Qed.

(** C5 (counterexample): in the same run, the POSTs after 2^53 - 1 create/
    delete rounds are handed the ids 2^53 and 2^53: the second is not larger
    than the first. *)
Lemma ids_strictly_increasing_counterexample :
  ~ (forall (cfg : env) (rs : list request),
        StronglySorted Z.lt (ids (created (fst (run cfg init_store rs))))).
Proof.
  intros H.
  specialize (H cfg0 (create_delete_rounds rounds_to_2_53 ++ [post "x" []; post "y" []])).
  apply (sorted_created_after cfg0 (create_delete_rounds rounds_to_2_53)
           [post "x" []; post "y" []] (mkStore [] (2 ^ 53)) (after_rounds cfg0)) in H.
  assert (E : ids (created (fst (run cfg0 (mkStore [] (2 ^ 53)) [post "x" []; post "y" []])))
             = [2 ^ 53; 2 ^ 53]) by (vm_compute; reflexivity).
  rewrite E in H.
  inversion H as [|a l _ Hlt]. apply Forall_inv in Hlt. lia.
Qed.

(** C5 (amended): while at most 2^53 records have been created, each id
    handed out is larger than every id handed out before it (deleted records
    included); on every reachable store no request lowers the counter, and a
    DELETE leaves it as it is. *)
Theorem ids_strictly_increasing (cfg : env) (rs : list request) (r : request) :
  (Z.of_nat (List.length (created (fst (run cfg init_store rs)))) <= 2 ^ 53 ->
     StronglySorted Z.lt (ids (created (fst (run cfg init_store rs))))) /\
  (snd (run cfg init_store rs)).(nextId) <=
    (snd (handle cfg r (snd (run cfg init_store rs)))).(nextId) /\
  (forall p, r = DeleteTodo p ->
     (snd (handle cfg r (snd (run cfg init_store rs)))).(nextId) =
     (snd (run cfg init_store rs)).(nextId)).
Proof.
  split; [|split].
  - intros Hc. exact (proj1 (proj2 (run_issued cfg rs init_store 0 issued_inv_init Hc))).
  - destruct (counter_ok_reachable cfg rs) as [Hn _].
    set (st := snd (run cfg init_store rs)) in *.
    destruct (handle cfg r st) as [resp st'] eqn:Hh. simpl.
    destruct (handle_step cfg r st resp st' Hh)
      as [[-> _] | [(_ & -> & _) | (t & _ & _ & ->)]]; simpl; try lia.
    rewrite js_incr_counter by lia. lia.
  - intros p ->. apply delete_keeps_counter.
Qed.

(** ** Order *)

(** C6: on every reachable store, GET /api/todos answers with the stored
    records, and these are a sub-sequence of the records created, in the
    order of creation; a DELETE either changes nothing or removes one record
    and keeps the others in their order. *)
Theorem list_in_insertion_order (cfg : env) (rs : list request) :
  fst (handle cfg GetTodos (snd (run cfg init_store rs))) =
    mkResp 200 (BTodos (snd (run cfg init_store rs)).(todos)) /\
  subseq (snd (run cfg init_store rs)).(todos) (created (fst (run cfg init_store rs))) /\
  (forall p st, snd (handle cfg (DeleteTodo p) st) = st \/
     exists l1 t l2, st.(todos) = l1 ++ t :: l2 /\
                     (snd (handle cfg (DeleteTodo p) st)).(todos) = l1 ++ l2).
Proof.
  split; [reflexivity | split].
  - exact (run_subseq cfg rs init_store).
  - intros p st. destruct (handle cfg (DeleteTodo p) st) as [resp st'] eqn:Hh. simpl.
    destruct (handle_step cfg _ st resp st' Hh)
      as [[-> _] | [(_ & _ & H) | (t & Hcr & _ & _)]]; auto.
    exfalso. simpl in Hh. unfold delete_todo in Hh.
    destruct (isNaN (parseInt p)); [injection Hh as <- _; discriminate Hcr|].
    destruct (_ =? -1); injection Hh as <- _; discriminate Hcr.
Qed.

(** ** The scenario *)

(** C7: from the empty store, inserting "a" and "b" lists [1 "a"; 2 "b"];
    deleting 1 lists [2 "b"]; inserting "c" then creates id 3. *)
Theorem scenario_responses (cfg : env) (t1 t2 t3 : jsstr) :
  fst (run cfg init_store (scenario t1 t2 t3)) =
  [mkResp 201 (BTodo (mkTodo 1 (js "a") t1));
   mkResp 201 (BTodo (mkTodo 2 (js "b") t2));
   mkResp 200 (BTodos [mkTodo 1 (js "a") t1; mkTodo 2 (js "b") t2]);
   mkResp 204 BEmpty;
   mkResp 200 (BTodos [mkTodo 2 (js "b") t2]);
   mkResp 201 (BTodo (mkTodo 3 (js "c") t3))].
Proof. reflexivity. Qed.

(** ** Stored text *)

(** C8: "  buy milk  " trims to "buy milk"; and every accepted POST (status
    201) had a string [text], and stores (and answers) a record whose text is
    that string trimmed: non-empty, with no white space at either end. *)
Theorem post_stores_trimmed :
  js_trim (js "  buy milk  ") = js "buy milk" /\
  forall (cfg : env) (v : option jsval) (now : jsstr) (st : store) (resp : response) (st' : store),
    handle cfg (PostTodos v now) st = (resp, st') -> resp.(status) = 201 ->
    exists s t, v = Some (JStr s) /\ resp.(payload) = BTodo t /\
      st'.(todos) = st.(todos) ++ [t] /\ t.(text) = js_trim s /\ t.(text) <> [] /\
      (forall c r, t.(text) = c :: r -> is_ws c = false) /\
      (forall r c, t.(text) = r ++ [c] -> is_ws c = false).
Proof.
  split; [reflexivity|].
  intros cfg v now st resp st' Hh H201. simpl in Hh. unfold post_todos in Hh.
  destruct (js_falsy v || negb (typeof_string v) || trims_empty v) eqn:E.
  - injection Hh as <- _. discriminate H201.
  - destruct v as [[| | |s| |]|]; injection Hh as <- <-; try discriminate H201.
    exists s, (mkTodo (nextId st) (js_trim s) now). simpl.
    repeat split; auto; try apply js_trim_ends.
    intros Hempty. apply orb_false_iff in E as [_ E]. unfold trims_empty in E.
    rewrite Hempty in E. discriminate E.
Qed.

(** ** Non-positive identifiers *)

(** C10: on every reachable store, a DELETE whose identifier parses to an
    integer at most 0 answers 404 {error: "Todo not found"} and changes
    nothing: every id handed out is at least 1. *)
Theorem delete_nonpositive_not_found (cfg : env) (rs : list request) (s : jsstr) (z : Z) :
  parseInt s = Fin z -> z <= 0 ->
  handle cfg (DeleteTodo s) (snd (run cfg init_store rs)) =
    (mkResp 404 (BError (js "Todo not found")), snd (run cfg init_store rs)).
Proof.
  intros Hp Hz. destruct (counter_ok_reachable cfg rs) as [_ Hids].
  destruct (delete_todo_cases cfg s (snd (run cfg init_store rs)) z Hp) as [(l1 & t & l2 & Hl & _ & Ht & _) | (_ & Hh)];
    [|exact Hh].
  exfalso. rewrite Hl in Hids. apply Forall_app in Hids as [_ H].
  inversion H; subst. lia.
Qed.

(** * Witnesses: the theorems at concrete inputs *)

Lemma delete_rejects_exactly_NaN_witness :
  handle cfg0 (DeleteTodo (js "abc")) store_with_1 =
    (mkResp 400 (BError (js "Invalid todo ID")), store_with_1).
Proof.
  apply (proj1 (proj2 (delete_rejects_exactly_NaN cfg0 (js "abc") store_with_1))).
  reflexivity.
Defined.

Lemma post_rejects_invalid_text_witness :
  handle cfg0 (PostTodos (Some (JStr (js "   "))) []) store_with_1 =
    (mkResp 400 (BError post_error), store_with_1).
Proof.
  apply post_rejects_invalid_text. right; right.
  exists (js "   "). split; reflexivity.
Defined.

Lemma delete_semantics_witness :
  exists l1 t l2,
    store_with_1.(todos) = l1 ++ t :: l2 /\ t.(id) = 1 /\ Forall (fun u => u.(id) <> 1) l1 /\
    handle cfg0 (DeleteTodo (js "1")) store_with_1 =
      (mkResp 204 BEmpty, mkStore (l1 ++ l2) store_with_1.(nextId)) /\
    List.length (l1 ++ l2) = pred (List.length store_with_1.(todos)).
Proof.
  apply (proj1 (delete_semantics cfg0 (js "1") store_with_1 1 ltac:(reflexivity))).
  exists (mkTodo 1 (js "a") []). split; [left; reflexivity | reflexivity].
Defined.

Lemma ids_distinct_witness :
  NoDup (ids (snd (run cfg0 init_store [post "a" []; post "b" []])).(todos)).
Proof.
  apply ids_distinct. apply Z.leb_le. vm_compute. reflexivity.
Defined.

Lemma ids_strictly_increasing_witness :
  StronglySorted Z.lt
    (ids (created (fst (run cfg0 init_store [post "a" []; DeleteTodo (js "1"); post "b" []])))).
Proof.
  apply (proj1 (ids_strictly_increasing cfg0
                  [post "a" []; DeleteTodo (js "1"); post "b" []] GetTodos)).
  apply Z.leb_le. vm_compute. reflexivity.
Defined.

Lemma post_stores_trimmed_witness :
  exists s t, Some (JStr (js "  buy milk  ")) = Some (JStr s) /\ t.(text) = js_trim s /\
    t.(text) <> [] /\ (mkStore [mkTodo 1 (js "buy milk") []] 2).(todos) = [t].
Proof.
  destruct (proj2 post_stores_trimmed cfg0 (Some (JStr (js "  buy milk  "))) [] init_store
              (mkResp 201 (BTodo (mkTodo 1 (js "buy milk") [])))
              (mkStore [mkTodo 1 (js "buy milk") []] 2)
              ltac:(vm_compute; reflexivity) eq_refl)
    as (s & t & Hv & _ & Hst & Ht & Hne & _).
  exists s, t. repeat split; assumption.
Defined.

Lemma reads_leave_store_witness :
  snd (handle cfg0 (GetHealth []) store_with_1) = store_with_1.
Proof.
  apply (proj2 (proj2 (reads_leave_store cfg0 store_with_1)) (GetHealth [])).
  - intros v now H. discriminate H.
  - intros p H. discriminate H.
Defined.

Lemma delete_nonpositive_not_found_witness :
  handle cfg0 (DeleteTodo (js "-5")) (snd (run cfg0 init_store [post "a" []])) =
    (mkResp 404 (BError (js "Todo not found")), snd (run cfg0 init_store [post "a" []])).
Proof.
  apply (delete_nonpositive_not_found cfg0 [post "a" []] (js "-5") (-5)); [reflexivity | lia].
Defined.

(** * Further properties of the routes *)


(** A POST whose [text] is a string [s] is rejected with 400 exactly when
    every code unit of [s] is white space (the empty string included);
    otherwise it creates the record [{id: nextId, text: s.trim(), createdAt}],
    appends it and steps the counter. *)
Theorem post_string_outcome (cfg : env) (s now : jsstr) (st : store) :
  handle cfg (PostTodos (Some (JStr s)) now) st =
  if forallb is_ws s then (mkResp 400 (BError post_error), st)
  else (mkResp 201 (BTodo (mkTodo st.(nextId) (js_trim s) now)),
        mkStore (st.(todos) ++ [mkTodo st.(nextId) (js_trim s) now]) (js_incr st.(nextId))).
Proof. apply post_string. Qed.

(** Posting [s.trim()] instead of [s] gives the same response and the same
    store: white space around the text has no effect at all. *)
Theorem post_trimmed_text_same_outcome (cfg : env) (s now : jsstr) (st : store) :
  handle cfg (PostTodos (Some (JStr (js_trim s))) now) st =
  handle cfg (PostTodos (Some (JStr s)) now) st.
Proof.
  rewrite !post_string, js_trim_idem.
  replace (forallb is_ws (js_trim s)) with (forallb is_ws s); [reflexivity|].
  destruct (forallb is_ws s) eqn:E; symmetry.
  - apply js_trim_nil. rewrite js_trim_idem. apply js_trim_nil. exact E.
  - destruct (forallb is_ws (js_trim s)) eqn:F; [|reflexivity].
    apply js_trim_nil in F. rewrite js_trim_idem in F. apply js_trim_nil in F. congruence.
Qed.

(** [trim] removes white space only, and only at the two ends: the input is
    the result with a white-space prefix and suffix around it; trimming again
    changes nothing; the result is empty exactly when the input is all white
    space. *)
Theorem js_trim_strips_only_whitespace (s : jsstr) :
  (exists a b, s = a ++ js_trim s ++ b /\ forallb is_ws a = true /\ forallb is_ws b = true) /\
  js_trim (js_trim s) = js_trim s /\
  (js_trim s = [] <-> forallb is_ws s = true).
Proof. split; [apply js_trim_split | split; [apply js_trim_idem | apply js_trim_nil]]. Qed.

(** DELETE reads only the leading integer of its identifier: after leading
    white space, a decimal digit string followed by a non-digit (other than the
    "0x" case) is handled exactly as the digit string alone. *)
Theorem delete_reads_leading_integer (cfg : env) (w ds : jsstr) (c : Z) (r : jsstr) (st : store) :
  forallb is_ws w = true -> ds <> [] -> Forall (fun d => 48 <= d <= 57) ds ->
  ~ (48 <= c <= 57) -> ~ (ds = [48] /\ (c = 120 \/ c = 88)) ->
  handle cfg (DeleteTodo (w ++ ds ++ c :: r)) st = handle cfg (DeleteTodo ds) st.
Proof.
  intros Hw Hne HF Hc Hx.
  assert (Hp : parseInt (w ++ ds ++ c :: r) = parseInt ds).
  { unfold parseInt.
    rewrite (parseInt_math_trim_start (w ++ ds ++ c :: r) (ds ++ c :: r))
      by apply trim_start_ws_app, Hw.
    rewrite parseInt_math_leading, parseInt_math_decimal by
      (try assumption; simpl;
       try (pose proof (digit_value_nondec c Hc); rewrite (proj2 (Z.ltb_ge _ _)) by lia;
            reflexivity);
       intros (Hd & c' & r' & E & Hc'); injection E as <- _; tauto).
    reflexivity. }
  simpl. unfold delete_todo. rewrite Hp. reflexivity.
Qed.

(** An identifier "0x" or "0X" followed by hexadecimal digits is read in
    base 16. *)
Theorem parseInt_hex_prefix (x : Z) (h : jsstr) :
  x = 120 \/ x = 88 -> h <> [] -> Forall (fun c => digit_value c < 16) h ->
  parseInt (48 :: x :: h) = to_number (digits_value 16 (map digit_value h)).
Proof. intros Hx Hne HF. unfold parseInt. rewrite parseInt_math_hex by assumption. reflexivity. Qed.

(** A leading "-" negates the integer read and a leading "+" is ignored; one
    sign only, with no white space after it. *)
Theorem parseInt_sign_prefix (s : jsstr) :
  match s with c :: _ => is_ws c = false /\ c <> 43 /\ c <> 45 | [] => True end ->
  parseInt_math (45 :: s) = option_map Z.opp (parseInt_math s) /\
  parseInt_math (43 :: s) = parseInt_math s.
Proof.
  intros Hs.
  assert (Ht : trim_start s = s).
  { apply trim_start_fixed. intros c r ->. apply Hs. }
  unfold parseInt_math. rewrite Ht. cbn [trim_start].
  replace (is_ws 45) with false by reflexivity.
  replace (is_ws 43) with false by reflexivity.
  replace (45 =? 43) with false by reflexivity.
  replace (45 =? 45) with true by reflexivity.
  replace (43 =? 43) with true by reflexivity.
  replace (43 =? 45) with false by reflexivity.
  cbv iota. simpl orb. cbv iota.
  destruct s as [|c r]; [split; reflexivity|].
  destruct Hs as (_ & H43 & H45).
  rewrite (proj2 (Z.eqb_neq c 43) H43), (proj2 (Z.eqb_neq c 45) H45). simpl orb.
  destruct r as [|c1 r1].
  - destruct (digit_prefix 10 [c]) as [|d ds]; [split; reflexivity|].
    split; cbn [option_map]; f_equal; lia.
  - destruct ((c =? 48) && ((c1 =? 120) || (c1 =? 88))).
    + destruct (digit_prefix 16 r1); [split; reflexivity|].
      split; cbn [option_map]; f_equal; lia.
    + destruct (digit_prefix 10 (c :: c1 :: r1)); [split; reflexivity|].
      split; cbn [option_map]; f_equal; lia.
Qed.

(** A decimal digit string (leading zeros allowed) whose value is at most 2^53
    is read exactly as that value. *)
Theorem parseInt_decimal_exact (ds : jsstr) :
  ds <> [] -> Forall (fun c => 48 <= c <= 57) ds ->
  digits_value 10 (map (fun c => c - 48) ds) <= 2 ^ 53 ->
  parseInt ds = Fin (digits_value 10 (map (fun c => c - 48) ds)).
Proof.
  intros Hne HF Hle.
  assert (H0 : 0 <= digits_value 10 (map (fun c => c - 48) ds)).
  { apply digits_value_nonneg_acc; [lia | lia |]. apply Forall_map.
    eapply Forall_impl; [|exact HF]. intros c Hc. cbv beta in *. lia. }
  unfold parseInt. rewrite parseInt_math_decimal by assumption.
  unfold to_number. rewrite round_double_small by lia.
  rewrite (proj2 (Z.leb_gt _ _)) by (rewrite Z.abs_eq by lia; lia). reflexivity.
Qed.

(** When the stored ids are distinct, deleting the same identifier a second
    time finds nothing: 404 (or 400 for an identifier that does not parse),
    and the store is left as the first delete left it. *)
Theorem delete_twice_not_found (cfg : env) (s : jsstr) (st : store) :
  NoDup (ids st.(todos)) ->
  handle cfg (DeleteTodo s) (snd (handle cfg (DeleteTodo s) st)) =
    (if isNaN (parseInt s) then mkResp 400 (BError (js "Invalid todo ID"))
     else mkResp 404 (BError (js "Todo not found")),
     snd (handle cfg (DeleteTodo s) st)).
Proof.
  intros Hnd. destruct (parseInt s) as [|n| |] eqn:Hp.
  - simpl. unfold delete_todo. rewrite Hp. reflexivity.
  - destruct (delete_todo_cases cfg s st n Hp)
      as [(l1 & t & l2 & Hl & Hl1 & Ht & Hh) | (_ & Hh)]; rewrite Hh; cbn [snd isNaN].
    + destruct (delete_todo_cases cfg s (mkStore (l1 ++ l2) (nextId st)) n Hp)
        as [(m1 & u & m2 & Hm & _ & Hu & _) | (_ & Hh2)]; [|exact Hh2].
      exfalso. cbn [todos] in Hm. rewrite Hl in Hnd. unfold ids in Hnd. rewrite map_app in Hnd.
      cbn [map] in Hnd. apply NoDup_remove_2 in Hnd. apply Hnd.
      rewrite <- map_app, Ht, <- Hu. apply in_map. rewrite Hm.
      apply in_or_app. right. left. reflexivity.
    + rewrite Hh. reflexivity.
  - simpl. unfold delete_todo. rewrite Hp. simpl.
    rewrite findIndex_none; [reflexivity|].
    apply Forall_forall. reflexivity.
  - simpl. unfold delete_todo. rewrite Hp. simpl.
    rewrite findIndex_none; [reflexivity|].
    apply Forall_forall. reflexivity.
Qed.

(** Every response is one of: 200 with the list or the health record, 201
    with the created record, 204 with an empty body, 400 with one of the two
    validation messages, 404 with "Todo not found". *)
Theorem response_shapes (cfg : env) (rs : list request) (st : store) :
  Forall (fun resp =>
    (resp.(status) = 200 /\ ((exists l, resp.(payload) = BTodos l) \/
                            exists now, resp.(payload) = BHealth (js "OK") now (APP_NAME cfg) (APP_DESCRIPTION cfg))) \/
    (resp.(status) = 201 /\ exists t, resp.(payload) = BTodo t) \/
    (resp.(status) = 204 /\ resp.(payload) = BEmpty) \/
    (resp.(status) = 400 /\ (resp.(payload) = BError post_error \/
                             resp.(payload) = BError (js "Invalid todo ID"))) \/
    (resp.(status) = 404 /\ resp.(payload) = BError (js "Todo not found")))
  (fst (run cfg st rs)).
Proof.
  revert st. induction rs as [|r rs IH]; intros st; [constructor|].
  rewrite run_cons_fst. constructor; [apply handle_shape | apply IH].
Qed.

(** The number of stored records changes by one per 201 response and by
    minus one per 204 response, and by nothing else. *)
Theorem todo_count_balance (cfg : env) (rs : list request) (st : store) :
  Z.of_nat (List.length (snd (run cfg st rs)).(todos)) =
  Z.of_nat (List.length st.(todos)) + Z.of_nat (count_status 201 (fst (run cfg st rs)))
  - Z.of_nat (count_status 204 (fst (run cfg st rs))).
Proof.
  revert st. induction rs as [|r rs IH]; intros st; [simpl; lia|].
  rewrite run_cons_store, run_cons_fst, !count_status_cons, IH.
  destruct (handle_length cfg r st) as [(H1 & H2) | [(H1 & H2) | (H1 & H2 & H3)]];
    cbv zeta in *.
  - rewrite H1. replace (201 =? 201) with true by reflexivity.
    replace (201 =? 204) with false by reflexivity. lia.
  - rewrite H1. replace (204 =? 201) with false by reflexivity.
    replace (204 =? 204) with true by reflexivity. lia.
  - rewrite H3, (proj2 (Z.eqb_neq _ _) H1), (proj2 (Z.eqb_neq _ _) H2). lia.
Qed.

(** From the empty store, the counter is one more than the number of records
    created, capped at 2^53. *)
Theorem counter_counts_creations (cfg : env) (rs : list request) :
  (snd (run cfg init_store rs)).(nextId) =
  Z.min (1 + Z.of_nat (List.length (created (fst (run cfg init_store rs))))) (2 ^ 53).
Proof. apply counter_run. simpl. lia. Qed.

(** The reads (GET /api/todos, GET /api/health) can be dropped from any
    sequence of requests without changing the final store or the records
    created. *)
Theorem reads_do_not_affect_store (cfg : env) (rs : list request) (st : store) :
  snd (run cfg st (filter is_write rs)) = snd (run cfg st rs) /\
  created (fst (run cfg st (filter is_write rs))) = created (fst (run cfg st rs)).
Proof.
  revert st. induction rs as [|r rs IH]; intros st; [split; reflexivity|].
  destruct r as [|v now|p|now]; cbn [filter is_write];
    rewrite !run_cons_store, !run_cons_created.
  - cbn [handle get_todos fst snd]. rewrite (proj1 (IH st)), (proj2 (IH st)). auto.
  - destruct (IH (snd (handle cfg (PostTodos v now) st))) as [-> ->]. auto.
  - destruct (IH (snd (handle cfg (DeleteTodo p) st))) as [-> ->]. auto.
  - cbn [handle get_health fst snd]. rewrite (proj1 (IH st)), (proj2 (IH st)). auto.
Qed.

(** In every reachable store each record's text is non-empty and has no white
    space at either end. *)
Theorem stored_texts_trimmed (cfg : env) (rs : list request) :
  Forall (fun t => t.(text) <> [] /\ js_trim t.(text) = t.(text))
    (snd (run cfg init_store rs)).(todos).
Proof. apply (run_preserves cfg text_ok); [apply text_ok_step | constructor]. Qed.

(** In every reachable store each record's id is at least 1 and below the
    counter, except for the id 2^53 once the counter has stopped at 2^53. *)
Theorem stored_ids_below_counter (cfg : env) (rs : list request) :
  Forall (fun t => 1 <= t.(id) < (snd (run cfg init_store rs)).(nextId) \/
                   (t.(id) = (snd (run cfg init_store rs)).(nextId) /\ (snd (run cfg init_store rs)).(nextId) = 2 ^ 53))
    (snd (run cfg init_store rs)).(todos).
Proof. apply ids_below_reachable. Qed.

(** On a reachable store, deleting an id at or above the counter (other than
    2^53) answers 404 and changes nothing. *)
Theorem delete_unissued_not_found (cfg : env) (rs : list request) (s : jsstr) (z : Z) :
  parseInt s = Fin z -> (snd (run cfg init_store rs)).(nextId) <= z -> z <> 2 ^ 53 ->
  handle cfg (DeleteTodo s) (snd (run cfg init_store rs)) =
    (mkResp 404 (BError (js "Todo not found")), snd (run cfg init_store rs)).
Proof.
  intros Hp Hz H53.
  destruct (ids_below_reachable cfg rs) as [_ Hall].
  destruct (delete_todo_cases cfg s (snd (run cfg init_store rs)) z Hp)
    as [(l1 & t & l2 & Hl & _ & Ht & _) | (_ & Hh)]; [|exact Hh].
  exfalso. rewrite Hl in Hall. apply Forall_app in Hall as [_ H].
  inversion H; subst. lia.
Qed.

(** Creating a record and then deleting it by the decimal string of its id
    restores the list, on a store whose ids all lie below the counter; the
    counter has moved on by one. *)
Theorem post_then_delete_restores (cfg : env) (st : store) (s now : jsstr) :
  1 <= st.(nextId) < 2 ^ 53 -> Forall (fun t => t.(id) < st.(nextId)) st.(todos) ->
  forallb is_ws s = false ->
  run cfg st [PostTodos (Some (JStr s)) now; DeleteTodo (dec st.(nextId))] =
  ([mkResp 201 (BTodo (mkTodo st.(nextId) (js_trim s) now)); mkResp 204 BEmpty],
   mkStore st.(todos) (st.(nextId) + 1)).
Proof.
  intros Hn Hall Hs.
  assert (Hp : parseInt (dec st.(nextId)) = Fin st.(nextId)) by (apply parseInt_dec; lia).
  cbn [run]. rewrite post_string, Hs.
  set (t := mkTodo (nextId st) (js_trim s) now).
  set (st1 := mkStore (todos st ++ [t]) (js_incr (nextId st))).
  destruct (delete_todo_cases cfg (dec (nextId st)) st1 (nextId st) Hp)
    as [(l1 & u & l2 & Hl & _ & Hu & Hh) | (Hnone & _)].
  - cbn [todos st1] in Hl. rewrite Hh. unfold st1. cbn [nextId].
    rewrite js_incr_counter, Z.min_l by lia.
    destruct l2 as [|x l2'].
    + apply app_inj_tail in Hl as [<- <-]. rewrite app_nil_r. reflexivity.
    + exfalso. destruct (exists_last (l := x :: l2') ltac:(discriminate)) as (m & a & E).
      rewrite E, app_comm_cons, app_assoc in Hl. apply app_inj_tail in Hl as [Hl _].
      assert (Hin : In u (todos st)) by (rewrite Hl; apply in_or_app; right; left; reflexivity).
      pose proof (proj1 (Forall_forall _ _) Hall u Hin) as Hlt. cbv beta in Hlt. lia.
  - exfalso. cbn [todos st1] in Hnone. apply Forall_app in Hnone as [_ H].
    inversion H as [|? ? Ht _]. apply Ht. reflexivity.
Qed.

(** * Witnesses of the further properties *)

Lemma delete_reads_leading_integer_witness :
  handle cfg0 (DeleteTodo ([32] ++ js "1" ++ 97 :: [])) store_with_1 =
  handle cfg0 (DeleteTodo (js "1")) store_with_1.
Proof.
  apply (delete_reads_leading_integer cfg0 [32] (js "1") 97 [] store_with_1).
  - reflexivity.
  - discriminate.
  - apply Forall_forall. intros x Hx. vm_compute in Hx. destruct Hx as [<- | []]. lia.
  - lia.
  - intros [H _]. discriminate H.
Defined.

Lemma parseInt_hex_prefix_witness :
  parseInt (48 :: 120 :: [49; 65]) = to_number (digits_value 16 (map digit_value [49; 65])).
Proof.
  apply parseInt_hex_prefix.
  - left. reflexivity.
  - discriminate.
  - vm_compute. constructor; [reflexivity | constructor; [reflexivity | constructor]].
Defined.

Lemma parseInt_sign_prefix_witness :
  parseInt_math (45 :: js "12") = option_map Z.opp (parseInt_math (js "12")) /\
  parseInt_math (43 :: js "12") = parseInt_math (js "12").
Proof.
  apply parseInt_sign_prefix. simpl. split; [reflexivity | split; lia].
Defined.

Lemma parseInt_decimal_exact_witness :
  parseInt (js "007") = Fin (digits_value 10 (map (fun c => c - 48) (js "007"))).
Proof.
  apply parseInt_decimal_exact.
  - discriminate.
  - apply Forall_forall. intros x Hx. vm_compute in Hx.
    destruct Hx as [<- | [<- | [<- | []]]]; lia.
  - vm_compute. discriminate.
Defined.

Lemma delete_twice_not_found_witness :
  handle cfg0 (DeleteTodo (js "1")) (snd (handle cfg0 (DeleteTodo (js "1")) store_with_1)) =
    (if isNaN (parseInt (js "1")) then mkResp 400 (BError (js "Invalid todo ID"))
     else mkResp 404 (BError (js "Todo not found")),
     snd (handle cfg0 (DeleteTodo (js "1")) store_with_1)).
Proof.
  apply delete_twice_not_found. simpl. constructor; [intros [] | constructor].
Defined.

Lemma delete_unissued_not_found_witness :
  handle cfg0 (DeleteTodo (js "2")) (snd (run cfg0 init_store [post "a" []])) =
    (mkResp 404 (BError (js "Todo not found")), snd (run cfg0 init_store [post "a" []])).
Proof.
  apply (delete_unissued_not_found cfg0 [post "a" []] (js "2") 2).
  - reflexivity.
  - vm_compute. discriminate.
  - lia.
Defined.

Lemma post_then_delete_restores_witness :
  run cfg0 store_with_1 [PostTodos (Some (JStr (js " b "))) []; DeleteTodo (dec store_with_1.(nextId))] =
  ([mkResp 201 (BTodo (mkTodo store_with_1.(nextId) (js_trim (js " b ")) [])); mkResp 204 BEmpty],
   mkStore store_with_1.(todos) (store_with_1.(nextId) + 1)).
Proof.
  apply post_then_delete_restores.
  - unfold store_with_1. simpl. lia.
  - unfold store_with_1. simpl. constructor; [simpl; lia | constructor].
  - reflexivity.
Defined.
